(** * Injection tokens and connection retry of the Sequelize module

    A shallow embedding of [src/lib/common/sequelize.utils.ts]:
    the naming helpers [getModelToken], [getConnectionToken],
    [getConnectionPrefix] and [getConnectionName], and the rxjs operator
    built by [handleRetry].

    JavaScript values are modelled as the TypeScript signatures give them:
    strings as [string], numbers that count or bound attempts as [Z], an
    optional argument or property as [option] ([None] is [undefined]), a
    thrown exception as the [Thrown] case of a completion. *)

From Stdlib Require Import String Ascii List ZArith Lia Bool DecimalString.
Import ListNotations.
Local Open Scope string_scope.

(** ** JavaScript values *)

(** A reference that the code tests against [null] and [undefined]. *)
Inductive Nullable (A : Type) : Type :=
| null
| undefined
| present (a : A).
Arguments null {A}.
Arguments undefined {A}.
Arguments present {A} a.

(** How a call ends: with a value, or with a thrown exception. *)
Inductive Completion (E A : Type) : Type :=
| Returned (a : A)
| Thrown (e : E).
Arguments Returned {E A} a.
Arguments Thrown {E A} e.

(** A parameter with a default value: [undefined] selects the default. *)
Definition orDefault {A : Type} (dflt : A) (arg : option A) : A :=
  match arg with
  | Some a => a
  | None => dflt
  end.

(** Truthiness of an optional string property: [undefined] and the empty
    string are falsy, every other string is truthy. *)
Definition truthy (s : option string) : bool :=
  match s with
  | None => false
  | Some s => negb (s =? "")
  end.

(** [x === s] for an optional string property [x] and a string [s]. *)
Definition strictEq (x : option string) (s : string) : bool :=
  match x with
  | None => false
  | Some n => n =? s
  end.

(** ** Data model of the naming helpers *)

(** [entity: Function]: a class or function object.  The helpers read its
    [name] property only, which is a string for every function object. *)
Record Entity : Type := { entityName : string }.

(** Modelled from the spec: the interface [SequelizeModuleOptions] is declared
    in [../interfaces], which is not among the sources; it is "a
    framework-defined options object describing a named database connection".
    The helpers read its optional [name] property only. *)
Record SequelizeModuleOptions : Type := { name : option string }.

(** The argument type [SequelizeModuleOptions<Dialect> | string]. *)
Inductive Connection : Type :=
| ConnectionName (s : string)
| ConnectionOptions (o : SequelizeModuleOptions).

(** What [getConnectionToken] returns: the [Sequelize] class itself, or a
    string token. *)
Inductive InjectionToken : Type :=
| Sequelize
| StringToken (s : string).

(** [CircularDependencyException], constructed with the decorator's name. *)
Inductive Exception : Type :=
| CircularDependencyException (context : string).

Section Tokens.

(** [DEFAULT_CONNECTION_NAME] is imported from [../sequelize.constants],
    which is not among the sources: the helpers are embedded over any value
    of it.  The JSDoc of the three helpers documents it as ['default']. *)
Variable DEFAULT_CONNECTION_NAME : string.

(** [getConnectionPrefix], lines 59-72.  A string is compared with the
    default name first (line 62); an options object never equals it, and is
    decided by its [name] (line 68).  Concatenating an absent name would print
    it as ["undefined"]; the guard leaves that case out. *)
Definition getConnectionPrefix (connection : option Connection) : string :=
  let connection := orDefault (ConnectionName DEFAULT_CONNECTION_NAME) connection in
  match connection with
  | ConnectionName s =>
      if s =? DEFAULT_CONNECTION_NAME then ""
      else s ++ "_"
  | ConnectionOptions o =>
      if strictEq (name o) DEFAULT_CONNECTION_NAME || negb (truthy (name o)) then ""
      else orDefault "undefined" (name o) ++ "_"
  end.

(** [getModelToken], lines 20-29. *)
Definition getModelToken (entity : Nullable Entity) (connection : option Connection)
  : Completion Exception string :=
  let connection := orDefault (ConnectionName DEFAULT_CONNECTION_NAME) connection in
  match entity with
  | null | undefined => Thrown (CircularDependencyException "@InjectModel()")
  | present entity =>
      let connectionPrefix := getConnectionPrefix (Some connection) in
      Returned (connectionPrefix ++ entityName entity ++ "Repository")
  end.

(** [getConnectionToken], lines 39-49. *)
Definition getConnectionToken (connection : option Connection) : InjectionToken :=
  let connection := orDefault (ConnectionName DEFAULT_CONNECTION_NAME) connection in
  match connection with
  | ConnectionName s =>
      if DEFAULT_CONNECTION_NAME =? s then Sequelize
      else StringToken (s ++ "Connection")
  | ConnectionOptions o =>
      if strictEq (name o) DEFAULT_CONNECTION_NAME || negb (truthy (name o)) then Sequelize
      else StringToken (orDefault "undefined" (name o) ++ "Connection")
  end.

(** [getConnectionName], lines 103-105.  The argument is [null] or
    [undefined] when no options object is passed. *)
Definition getConnectionName (options : Nullable SequelizeModuleOptions) : string :=
  match options with
  | null | undefined => DEFAULT_CONNECTION_NAME
  | present options =>
      if truthy (name options) then orDefault "undefined" (name options)
      else DEFAULT_CONNECTION_NAME
  end.

End Tokens.

(** ** Streams, the logger and the timer *)

(** A JavaScript [Error]: the operator reads its [stack] only. *)
Record JsError : Type := { message : string; stack : option string }.

(** How one subscription of a stream ends. *)
Inductive Ending : Type :=
| Complete
| Fail (error : JsError).

(** What one subscription delivers: the values emitted, in order, and how it
    ends.  Subscriptions that stay open for ever are outside this model. *)
Record Run (T : Type) : Type := { emitted : list T; ending : Ending }.
Arguments emitted {T} r.
Arguments ending {T} r.

(** A cold source, by what its [k]-th subscription (from 0) delivers. *)
Definition Observable (T : Type) : Type := nat -> Run T.

(** What the operator does besides emitting: lines written with
    [logger.error], and waits on the timer behind [delay]. *)
Inductive Event : Type :=
| LoggerError (context msg : string) (trace : option string)
| Timer (due : Z).

Definition Journal : Type := list Event.

(** Code that may write to the journal and may throw. *)
Definition Eff (A : Type) : Type := Journal -> Completion JsError A * Journal.

Definition ret {A : Type} (a : A) : Eff A := fun j => (Returned a, j).

Definition throw {A : Type} (e : JsError) : Eff A := fun j => (Thrown e, j).

Definition bind {A B : Type} (m : Eff A) (f : A -> Eff B) : Eff B :=
  fun j =>
    match m j with
    | (Returned a, j') => f a j'
    | (Thrown e, j') => (Thrown e, j')
    end.

Notation "x <- m ;; f" := (bind m (fun x => f))
  (at level 61, m at next level, right associativity).
Notation "m ;; f" := (bind m (fun _ => f))
  (at level 61, right associativity).

(** [const logger = new Logger('SequelizeModule')], line 10. *)
Definition logger_error (msg : string) (trace : option string) : Eff unit :=
  fun j => (Returned tt, (j ++ [LoggerError "SequelizeModule" msg trace])%list).

Definition timer (due : Z) : Eff unit :=
  fun j => (Returned tt, (j ++ [Timer due])%list).

(** A template literal prints a number in decimal. *)
Definition numberToString (n : Z) : string := NilZero.string_of_int (Z.to_int n).

(** ** The rxjs operators that [handleRetry] pipes *)

(** An operator on the stream of errors, as a machine: its state when it is
    subscribed, and what it does with one notification.  Throwing ends the
    stream with that error. *)
Record Operator (S A B : Type) : Type :=
  { seed : S; next : S -> A -> Eff (S * B) }.
Arguments seed {S A B} o.
Arguments next {S A B} o st a.

(** [scan(accumulator, seed)]: emits every new accumulated value. *)
Definition scan {A B : Type} (accumulator : B -> A -> Eff B) (seed : B)
  : Operator B A B :=
  {| seed := seed;
     next := fun acc value => acc' <- accumulator acc value ;; ret (acc', acc') |}.

(** The time that a timer set for [due] milliseconds takes: rxjs arms a timer
    with a negative due time for 0, and the runtime fires a timer of 2^31
    milliseconds or more after 1. *)
Definition dueTime (due : Z) : Z :=
  if (due <? 0)%Z then 0%Z
  else if (due <? 2147483648)%Z then due
  else 1%Z.

(** [delay(due)]: a notification passes after the timer; an error is not
    delayed. *)
Definition delay {A : Type} (due : Z) : Operator unit A A :=
  {| seed := tt;
     next := fun _ value => timer (dueTime due) ;; ret (tt, value) |}.

(** [e.pipe(f, g)]. *)
Definition pipe {S1 S2 A B C : Type} (f : Operator S1 A B) (g : Operator S2 B C)
  : Operator (S1 * S2) A C :=
  {| seed := (seed f, seed g);
     next := fun st a =>
       r <- next f (fst st) a ;;
       q <- next g (snd st) (snd r) ;;
       ret ((fst r, fst q), snd q) |}.

(** What a subscriber of the piped stream has seen when it ends: the run, how
    many times the source was subscribed, and the journal. *)
Record Outcome (T : Type) : Type :=
  { run : Run T; subscriptions : nat; journal : Journal }.
Arguments run {T} o.
Arguments subscriptions {T} o.
Arguments journal {T} o.

(** [retryWhen(notifier)], from the [k]-th subscription of the source on:
    values pass through; an error of the source goes to the notifier; when
    the notifier emits, the source is subscribed again; when the notifier
    throws, the piped stream fails with what it threw.  [fuel] bounds the
    number of subscriptions ([None]: not ended within the bound). *)
Fixpoint resubscribe {S B T : Type} (notifier : Operator S JsError B)
  (source : Observable T) (fuel : nat) (st : S) (k : nat) (seen : list T)
  (j : Journal) : option (Outcome T) :=
  match fuel with
  | O => None
  | Datatypes.S fuel' =>
      let seen' := (seen ++ emitted (source k))%list in
      match ending (source k) with
      | Complete =>
          Some {| run := {| emitted := seen'; ending := Complete |};
                  subscriptions := Datatypes.S k; journal := j |}
      | Fail err =>
          match next notifier st err j with
          | (Thrown e, j') =>
              Some {| run := {| emitted := seen'; ending := Fail e |};
                      subscriptions := Datatypes.S k; journal := j' |}
          | (Returned r, j') =>
              resubscribe notifier source fuel' (fst r) (Datatypes.S k) seen' j'
          end
      end
  end.

Definition retryWhen {S B T : Type} (notifier : Operator S JsError B)
  (source : Observable T) (fuel : nat) (j : Journal) : option (Outcome T) :=
  resubscribe notifier source fuel (seed notifier) 0 [] j.

(** ** [handleRetry], lines 74-98 *)

(** The accumulator passed to [scan], lines 82-93. *)
Definition countError (retryAttempts : Z) (errorCount : Z) (error : JsError) : Eff Z :=
  logger_error
    ("Unable to connect to the database. Retrying ("
       ++ numberToString (errorCount + 1) ++ ")...")
    (stack error) ;;
  if (errorCount + 1 >=? retryAttempts)%Z then throw error
  else ret (errorCount + 1)%Z.

Definition handleRetry (retryAttempts retryDelay : option Z) {T : Type}
  (source : Observable T) : nat -> Journal -> option (Outcome T) :=
  let retryAttempts := orDefault 9%Z retryAttempts in
  let retryDelay := orDefault 3000%Z retryDelay in
  retryWhen (pipe (scan (countError retryAttempts) 0%Z) (delay retryDelay)) source.

(** ** Sources used in the examples *)

Definition refused : JsError :=
  {| message := "connect ECONNREFUSED"; stack := Some "Error: connect ECONNREFUSED" |}.

Definition timedOut : JsError :=
  {| message := "connect ETIMEDOUT"; stack := Some "Error: connect ETIMEDOUT" |}.

Definition resetByPeer : JsError :=
  {| message := "read ECONNRESET"; stack := None |}.

(** Fails once, then connects. *)
Definition flaky : Observable string :=
  fun k =>
    match k with
    | 0 => {| emitted := []; ending := Fail refused |}
    | _ => {| emitted := ["connected"]; ending := Complete |}
    end.

(** Fails with a different error on each of its first three subscriptions. *)
Definition failing : Observable string :=
  fun k =>
    match k with
    | 0 => {| emitted := []; ending := Fail refused |}
    | 1 => {| emitted := []; ending := Fail timedOut |}
    | 2 => {| emitted := []; ending := Fail resetByPeer |}
    | _ => {| emitted := ["connected"]; ending := Complete |}
    end.

(** ** Vocabulary of the statements *)

(** The name a connection argument carries, if any. *)
Definition nameOf (connection : Connection) : option string :=
  match connection with
  | ConnectionName s => Some s
  | ConnectionOptions o => name o
  end.

(** An options object whose name is the empty string. *)
Definition unnamed : Connection := ConnectionOptions {| name := Some "" |}.

Definition failed {T : Type} (r : Run T) : bool :=
  match ending r with
  | Fail _ => true
  | Complete => false
  end.

(** The first [n] subscriptions of the source all fail. *)
Definition failsFirst {T : Type} (source : Observable T) (n : nat) : bool :=
  forallb (fun k => failed (source k)) (seq 0 n).

(** The source fails [n] times and then succeeds. *)
Definition failsThenSucceeds {T : Type} (source : Observable T) (n : nat) : bool :=
  failsFirst source n && negb (failed (source n)).

(** The values that subscriptions [k], ..., [k + n - 1] of the source emit. *)
Definition emittedFrom {T : Type} (source : Observable T) (k n : nat) : list T :=
  flat_map (fun i => emitted (source i)) (seq k n).

(** The number of subscriptions a budget of [retryAttempts] allows. *)
Definition attemptsAllowed (retryAttempts : option Z) : nat :=
  Z.to_nat (Z.max 1 (orDefault 9%Z retryAttempts)).

(** The line logged at the [n]-th failure. *)
Definition retryLine (n : nat) (error : JsError) : Event :=
  LoggerError "SequelizeModule"
    ("Unable to connect to the database. Retrying ("
       ++ numberToString (Z.of_nat n) ++ ")...")
    (stack error).

(** What the journal gains from subscriptions [k], ..., [n - 1] when [n]
    subscriptions are made in all: every failure is logged with its number,
    and is followed by a wait unless it ends the last subscription. *)
Definition retryJournal {T : Type} (source : Observable T) (retryDelay : Z)
  (k n : nat) : Journal :=
  flat_map
    (fun i =>
       match ending (source i) with
       | Fail e =>
           retryLine (S i) e :: (if (S i <? n)%nat then [Timer retryDelay] else [])
       | Complete => []
       end)
    (seq k (n - k)).

(** The time spent on the timers of a journal. *)
Definition waited (j : Journal) : Z :=
  fold_right
    (fun ev acc =>
       match ev with
       | Timer due => (due + acc)%Z
       | LoggerError _ _ _ => acc
       end)
    0%Z j.

(** * Properties of the naming helpers *)

Section TokenProperties.

Variable DEFAULT_CONNECTION_NAME : string.

(** The default of the [connection] parameter is applied once: passing the
    defaulted argument on changes nothing. *)
Lemma getConnectionPrefix_orDefault (connection : option Connection) :
  getConnectionPrefix DEFAULT_CONNECTION_NAME
    (Some (orDefault (ConnectionName DEFAULT_CONNECTION_NAME) connection))
  = getConnectionPrefix DEFAULT_CONNECTION_NAME connection.
Proof. destruct connection; reflexivity. Qed.

(** The helpers at a string and at an options object. *)
Lemma getConnectionPrefix_string (s : string) :
  getConnectionPrefix DEFAULT_CONNECTION_NAME (Some (ConnectionName s))
  = if s =? DEFAULT_CONNECTION_NAME then "" else s ++ "_".
Proof. reflexivity. Qed.

Lemma getConnectionPrefix_options (o : SequelizeModuleOptions) :
  getConnectionPrefix DEFAULT_CONNECTION_NAME (Some (ConnectionOptions o))
  = if strictEq (name o) DEFAULT_CONNECTION_NAME || negb (truthy (name o))
    then "" else orDefault "undefined" (name o) ++ "_".
Proof. reflexivity. Qed.

Lemma getConnectionToken_string (s : string) :
  getConnectionToken DEFAULT_CONNECTION_NAME (Some (ConnectionName s))
  = if DEFAULT_CONNECTION_NAME =? s then Sequelize
    else StringToken (s ++ "Connection").
Proof. reflexivity. Qed.

Lemma getConnectionToken_options (o : SequelizeModuleOptions) :
  getConnectionToken DEFAULT_CONNECTION_NAME (Some (ConnectionOptions o))
  = if strictEq (name o) DEFAULT_CONNECTION_NAME || negb (truthy (name o))
    then Sequelize
    else StringToken (orDefault "undefined" (name o) ++ "Connection").
Proof. reflexivity. Qed.

(** An options object with a name that is neither the default nor empty
    passes the guard of lines 46 and 68. *)
Lemma named_options_guard (n : string) :
  n <> DEFAULT_CONNECTION_NAME -> n <> "" ->
  strictEq (name {| name := Some n |}) DEFAULT_CONNECTION_NAME
  || negb (truthy (name {| name := Some n |})) = false.
Proof.
  intros Hd He. unfold name, strictEq, truthy.
  apply String.eqb_neq in Hd. apply String.eqb_neq in He.
  now rewrite Hd, He.
Qed.

Lemma named_connection_cases (connection : Connection) (n : string) :
  nameOf connection = Some n -> connection <> unnamed ->
  connection = ConnectionName n
  \/ (connection = ConnectionOptions {| name := Some n |} /\ n <> "").
Proof.
  destruct connection as [s | [x]]; simpl; intros Hn Hu.
  - left. congruence.
  - right. subst x. split; [reflexivity |].
    intros ->. now apply Hu.
Qed.

Lemma getConnectionPrefix_of_name (connection : Connection) (n : string) :
  nameOf connection = Some n -> n <> DEFAULT_CONNECTION_NAME ->
  connection <> unnamed ->
  getConnectionPrefix DEFAULT_CONNECTION_NAME (Some connection) = n ++ "_".
Proof.
  intros Hn Hd Hu.
  destruct (named_connection_cases connection n Hn Hu) as [-> | [-> He]].
  - rewrite getConnectionPrefix_string.
    apply String.eqb_neq in Hd. now rewrite Hd.
  - rewrite getConnectionPrefix_options.
    now rewrite (named_options_guard n Hd He).
Qed.

(** C6 (amended): the prefix is empty for the default connection name, and
    for every connection that carries a non-default name -- a string, or an
    options object whose name is not empty -- it is that name followed by
    ["_"]. *)
Theorem getConnectionPrefix_named (connection : Connection) (n : string) :
  nameOf connection = Some n -> connection <> unnamed ->
  getConnectionPrefix DEFAULT_CONNECTION_NAME
    (Some (ConnectionName DEFAULT_CONNECTION_NAME)) = ""
  /\ (n <> DEFAULT_CONNECTION_NAME ->
      getConnectionPrefix DEFAULT_CONNECTION_NAME (Some connection) = n ++ "_").
Proof.
  intros Hn Hu. split.
  - rewrite getConnectionPrefix_string. now rewrite String.eqb_refl.
  - intros Hd. now apply getConnectionPrefix_of_name.
Qed.

(** C4 (amended): for every connection that carries a non-default name -- a
    string, or an options object whose name is not empty -- the connection
    token is that name followed by ["Connection"], while the prefix is that
    name followed by ["_"]: the token is built from the name, not from the
    prefix. *)
Theorem getConnectionToken_named (connection : Connection) (n : string) :
  nameOf connection = Some n -> n <> DEFAULT_CONNECTION_NAME ->
  connection <> unnamed ->
  getConnectionToken DEFAULT_CONNECTION_NAME (Some connection)
  = StringToken (n ++ "Connection")
  /\ getConnectionPrefix DEFAULT_CONNECTION_NAME (Some connection) = n ++ "_".
Proof.
  intros Hn Hd Hu. split; [| now apply getConnectionPrefix_of_name].
  destruct (named_connection_cases connection n Hn Hu) as [-> | [-> He]].
  - rewrite getConnectionToken_string, String.eqb_sym.
    apply String.eqb_neq in Hd. now rewrite Hd.
  - rewrite getConnectionToken_options.
    now rewrite (named_options_guard n Hd He).
Qed.

(** C5: for a model reference that is present, the model token is the
    connection prefix, then the model's name, then ["Repository"]. *)
Theorem getModelToken_present (entity : Entity) (connection : option Connection) :
  getModelToken DEFAULT_CONNECTION_NAME (present entity) connection
  = Returned (getConnectionPrefix DEFAULT_CONNECTION_NAME connection ++ entityName entity ++ "Repository").
Proof.
  unfold getModelToken. cbv zeta.
  now rewrite getConnectionPrefix_orDefault.
Qed.

(** C7: with a [null] or [undefined] model reference, [getModelToken] throws
    the circular-dependency exception, whatever the connection. *)
Theorem getModelToken_absent (connection : option Connection) :
  getModelToken DEFAULT_CONNECTION_NAME null connection
  = Thrown (CircularDependencyException "@InjectModel()")
  /\ getModelToken DEFAULT_CONNECTION_NAME undefined connection
     = Thrown (CircularDependencyException "@InjectModel()").
Proof. split; reflexivity. Qed.

(** C9: the default connection -- no argument, the default name, an options
    object named with the default name, an options object without a name --
    has the [Sequelize] class as its token. *)
Theorem getConnectionToken_default :
  getConnectionToken DEFAULT_CONNECTION_NAME None = Sequelize
  /\ getConnectionToken DEFAULT_CONNECTION_NAME (Some (ConnectionName DEFAULT_CONNECTION_NAME)) = Sequelize
  /\ getConnectionToken DEFAULT_CONNECTION_NAME (Some (ConnectionOptions {| name := Some DEFAULT_CONNECTION_NAME |}))
     = Sequelize
  /\ getConnectionToken DEFAULT_CONNECTION_NAME (Some (ConnectionOptions {| name := None |})) = Sequelize.
Proof.
  split; [| split; [| split]].
  - change (getConnectionToken DEFAULT_CONNECTION_NAME None)
      with (getConnectionToken DEFAULT_CONNECTION_NAME
              (Some (ConnectionName DEFAULT_CONNECTION_NAME))).
    rewrite getConnectionToken_string. now rewrite String.eqb_refl.
  - rewrite getConnectionToken_string. now rewrite String.eqb_refl.
  - rewrite getConnectionToken_options. unfold name, strictEq.
    now rewrite String.eqb_refl.
  - reflexivity.
Qed.

(** C10 (amended): [getConnectionName] always returns a string: the name of
    the options object when that name is present and not empty, and the
    default connection name in every other case -- no options object, no
    name, or an empty name. *)
Theorem getConnectionName_total (options : Nullable SequelizeModuleOptions) :
  getConnectionName DEFAULT_CONNECTION_NAME options
  = match options with
    | present {| name := Some n |} =>
        if n =? "" then DEFAULT_CONNECTION_NAME else n
    | _ => DEFAULT_CONNECTION_NAME
    end.
Proof.
  destruct options as [| | [[n |]]]; try reflexivity.
  unfold getConnectionName, name, truthy, orDefault.
  now destruct (n =? "").
Qed.

End TokenProperties.

(** C4, at the connection named ["reporting"]. *)
Lemma getConnectionToken_named_reporting :
  "reporting" <> "default"
  /\ getConnectionToken "default" (Some (ConnectionName "reporting"))
     = StringToken "reportingConnection"
  /\ getConnectionPrefix "default" (Some (ConnectionName "reporting")) = "reporting_".
Proof.
  split; [discriminate |].
  apply (getConnectionToken_named "default" (ConnectionName "reporting") "reporting");
    [reflexivity | discriminate | unfold unnamed; discriminate].
Defined.

(** C4 as stated fails: the token of the connection named ["reporting"] is
    ["reportingConnection"], which does not start with its prefix
    ["reporting_"], so no suffix completes the prefix to the token. *)
Lemma getConnectionToken_not_prefixed :
  "reporting" <> "default"
  /\ ~ (exists suffix : string,
         getConnectionToken "default" (Some (ConnectionName "reporting"))
         = StringToken
             (getConnectionPrefix "default" (Some (ConnectionName "reporting"))
                ++ suffix)).
Proof.
  split; [discriminate |].
  intros [suffix H]. cbn in H. discriminate H.
Qed.

(** C6, at an options object named ["audit"]. *)
Lemma getConnectionPrefix_named_audit :
  "audit" <> "default"
  /\ getConnectionPrefix "default" (Some (ConnectionName "default")) = ""
  /\ getConnectionPrefix "default" (Some (ConnectionOptions {| name := Some "audit" |}))
     = "audit_".
Proof.
  split; [discriminate |].
  destruct (getConnectionPrefix_named "default"
              (ConnectionOptions {| name := Some "audit" |}) "audit") as [H0 H1];
    [reflexivity | unfold unnamed; discriminate |].
  split; [exact H0 | apply H1; discriminate].
Defined.

(** C6 as stated fails: an options object whose name is the empty string has a
    non-default name, and its prefix is empty, not ["_"]. *)
Lemma getConnectionPrefix_empty_name :
  name {| name := Some "" |} = Some ""
  /\ "" <> "default"
  /\ getConnectionPrefix "default" (Some (ConnectionOptions {| name := Some "" |})) = ""
  /\ getConnectionPrefix "default" (Some (ConnectionOptions {| name := Some "" |}))
     <> "" ++ "_".
Proof. repeat split; discriminate. Qed.

(** C10 as stated fails: the name of the options object is present and is the
    empty string, and the function returns the default name, not that name. *)
Lemma getConnectionName_empty_name :
  name {| name := Some "" |} = Some ""
  /\ getConnectionName "default" (present {| name := Some "" |}) = "default"
  /\ getConnectionName "default" (present {| name := Some "" |}) <> "".
Proof. repeat split; discriminate. Qed.

(** * Properties of the retry operator *)

Lemma emittedFrom_cons {T : Type} (source : Observable T) (k n : nat) :
  emittedFrom source k (S n) = (emitted (source k) ++ emittedFrom source (S k) n)%list.
Proof. reflexivity. Qed.

Lemma emittedFrom_snoc {T : Type} (source : Observable T) (k n : nat) :
  emittedFrom source k (S n) = (emittedFrom source k n ++ emitted (source (k + n)))%list.
Proof.
  unfold emittedFrom. rewrite seq_S, flat_map_app. simpl.
  now rewrite app_nil_r.
Qed.

Lemma failed_true {T : Type} (r : Run T) :
  failed r = true -> exists e, ending r = Fail e.
Proof.
  unfold failed. destruct (ending r) as [| e]; [discriminate | eauto].
Qed.

Lemma failed_false {T : Type} (r : Run T) :
  failed r = false -> ending r = Complete.
Proof.
  unfold failed. now destruct (ending r).
Qed.

Lemma failsFirst_spec {T : Type} (source : Observable T) (n : nat) :
  failsFirst source n = true <-> (forall i, i < n -> failed (source i) = true).
Proof.
  unfold failsFirst. rewrite forallb_forall. split.
  - intros H i Hi. apply H, in_seq. lia.
  - intros H i Hi. apply H. apply in_seq in Hi. lia.
Qed.

Section RetryProperties.

Context {T : Type}.
Variable source : Observable T.
Variables retryAttempts retryDelay : Z.

Notation "'notifier'" :=
  (pipe (scan (countError retryAttempts) 0%Z) (delay retryDelay)).

(** What the piped notifier does with the error of subscription [k], when
    its counter stands at [k]: it logs, then throws the error it was given
    if the count reaches [retryAttempts], else waits and emits. *)
Lemma notifier_next (k : nat) (e : JsError) (j : Journal) :
  next notifier (Z.of_nat k, tt) e j
  = if (Z.of_nat (S k) >=? retryAttempts)%Z
    then (Thrown e, (j ++ [retryLine (S k) e])%list)
    else (Returned ((Z.of_nat (S k), tt), Z.of_nat (S k)),
          ((j ++ [retryLine (S k) e]) ++ [Timer (dueTime retryDelay)])%list).
Proof.
  rewrite Nat2Z.inj_succ, <- Z.add_1_r.
  unfold pipe, scan, delay, next, countError, retryLine.
  unfold bind, logger_error, timer, ret, throw, fst, snd.
  rewrite Nat2Z.inj_succ, <- Z.add_1_r.
  now destruct (Z.of_nat k + 1 >=? retryAttempts)%Z.
Qed.

(** One turn of the loop, when the counter stands at the number of
    subscriptions made. *)
Lemma resubscribe_step (fuel k : nat) (seen : list T) (j : Journal) :
  resubscribe notifier source (S fuel) (Z.of_nat k, tt) k seen j
  = match ending (source k) with
    | Complete =>
        Some {| run := {| emitted := seen ++ emitted (source k);
                          ending := Complete |};
                subscriptions := S k; journal := j |}
    | Fail e =>
        if (Z.of_nat (S k) >=? retryAttempts)%Z
        then Some {| run := {| emitted := seen ++ emitted (source k);
                               ending := Fail e |};
                     subscriptions := S k;
                     journal := j ++ [retryLine (S k) e] |}
        else resubscribe notifier source fuel (Z.of_nat (S k), tt) (S k)
               (seen ++ emitted (source k))
               ((j ++ [retryLine (S k) e]) ++ [Timer (dueTime retryDelay)])
    end%list.
Proof.
  cbn [resubscribe].
  destruct (ending (source k)) as [| e]; [reflexivity |].
  rewrite notifier_next.
  now destruct (Z.of_nat (S k) >=? retryAttempts)%Z.
Qed.

(** The source fails [n] more times and then completes, and the budget is
    not reached before: the loop ends with that completion. *)
Lemma resubscribe_succeeds (n : nat) :
  forall (k fuel : nat) (seen : list T) (j : Journal),
    (forall i, i < n -> failed (source (k + i)) = true) ->
    failed (source (k + n)) = false ->
    n = 0 \/ (Z.of_nat (k + n) < retryAttempts)%Z ->
    n < fuel ->
    exists j',
      resubscribe notifier source fuel (Z.of_nat k, tt) k seen j
      = Some {| run := {| emitted := seen ++ emittedFrom source k (S n);
                          ending := Complete |};
                subscriptions := S (k + n); journal := j' |}%list.
Proof.
  induction n as [| n IH]; intros k fuel seen j Hfail Hok Hbudget Hfuel;
    destruct fuel as [| fuel]; try lia; rewrite resubscribe_step.
  - rewrite Nat.add_0_r in *.
    rewrite (failed_false _ Hok), emittedFrom_cons.
    exists j. unfold emittedFrom at 1. simpl. now rewrite app_nil_r.
  - destruct (failed_true _ (Hfail 0 ltac:(lia))) as [e He].
    rewrite Nat.add_0_r in He. rewrite He.
    destruct (Z.geb_spec (Z.of_nat (S k)) retryAttempts) as [Hge | Hlt]; [lia |].
    destruct (IH (S k) fuel (seen ++ emitted (source k))%list
                ((j ++ [retryLine (S k) e]) ++ [Timer (dueTime retryDelay)])%list)
      as [j' Hj'].
    + intros i Hi. replace (S k + i) with (k + S i) by lia.
      apply Hfail. lia.
    + now replace (S k + n) with (k + S n) by lia.
    + right. lia.
    + lia.
    + exists j'. rewrite Hj'.
      replace (S k + n) with (k + S n) by lia.
      now rewrite (emittedFrom_cons source k (S n)), app_assoc.
Qed.

(** The source fails [n + 1] more times, and the budget is reached at the
    last of them and not before: the loop ends with the error of that last
    subscription, just logged. *)
Lemma resubscribe_gives_up (n : nat) :
  forall (k fuel : nat) (seen : list T) (j : Journal),
    (forall i, i <= n -> failed (source (k + i)) = true) ->
    (retryAttempts <= Z.of_nat (S (k + n)))%Z ->
    n = 0 \/ (Z.of_nat (k + n) < retryAttempts)%Z ->
    n < fuel ->
    exists e j',
      ending (source (k + n)) = Fail e
      /\ resubscribe notifier source fuel (Z.of_nat k, tt) k seen j
         = Some {| run := {| emitted := seen ++ emittedFrom source k (S n);
                             ending := Fail e |};
                   subscriptions := S (k + n);
                   journal := j' ++ [retryLine (S (k + n)) e] |}%list.
Proof.
  induction n as [| n IH]; intros k fuel seen j Hfail Hreach Hbudget Hfuel;
    destruct fuel as [| fuel]; try lia; rewrite resubscribe_step;
    destruct (failed_true _ (Hfail 0 ltac:(lia))) as [e He];
    rewrite Nat.add_0_r in He; rewrite He.
  - rewrite Nat.add_0_r in *.
    destruct (Z.geb_spec (Z.of_nat (S k)) retryAttempts) as [Hge | Hlt]; [| lia].
    exists e, j. split; [exact He |].
    rewrite emittedFrom_cons. unfold emittedFrom at 1. simpl.
    now rewrite app_nil_r.
  - destruct (Z.geb_spec (Z.of_nat (S k)) retryAttempts) as [Hge | Hlt]; [lia |].
    destruct (IH (S k) fuel (seen ++ emitted (source k))%list
                ((j ++ [retryLine (S k) e]) ++ [Timer (dueTime retryDelay)])%list)
      as (e' & j' & He' & Hj').
    + intros i Hi. replace (S k + i) with (k + S i) by lia.
      apply Hfail. lia.
    + now replace (S k + n) with (k + S n) by lia.
    + right. lia.
    + lia.
    + exists e', j'. rewrite Hj'.
      replace (S k + n) with (k + S n) in * by lia.
      split; [exact He' |].
      now rewrite (emittedFrom_cons source k (S n)), app_assoc.
Qed.

(** With fuel for the subscriptions that the budget still allows, the loop
    ends; and when it ends with an error, the budget is reached and the
    error is the one of the last subscription made, just logged. *)
Lemma resubscribe_ends (fuel : nat) :
  forall (k : nat) (seen : list T) (j : Journal),
    (Z.max 1 (retryAttempts - Z.of_nat k) <= Z.of_nat fuel)%Z ->
    exists o,
      resubscribe notifier source fuel (Z.of_nat k, tt) k seen j = Some o
      /\ k < subscriptions o
      /\ forall e, ending (run o) = Fail e ->
           ending (source (subscriptions o - 1)) = Fail e
           /\ (retryAttempts <= Z.of_nat (subscriptions o))%Z
           /\ exists j', journal o = (j' ++ [retryLine (subscriptions o) e])%list.
Proof.
  induction fuel as [| fuel IH]; intros k seen j Hfuel; [lia |].
  rewrite resubscribe_step.
  destruct (ending (source k)) as [| e] eqn:He.
  - eexists. split; [reflexivity |]. simpl. split; [lia |]. discriminate.
  - destruct (Z.geb_spec (Z.of_nat (S k)) retryAttempts) as [Hge | Hlt].
    + eexists. split; [reflexivity |]. simpl. split; [lia |].
      intros e' [= <-]. rewrite Nat.sub_0_r.
      repeat split; [exact He | lia | now exists j].
    + destruct (IH (S k) (seen ++ emitted (source k))%list
                  ((j ++ [retryLine (S k) e]) ++ [Timer (dueTime retryDelay)])%list)
        as (o & Ho & Hk & Hlast); [lia |].
      exists o. split; [exact Ho |]. split; [lia | exact Hlast].
Qed.

End RetryProperties.

(** C1 (amended): when the source fails [n] times and then succeeds, and
    [retryAttempts] is greater than [n] (or [n] is 0), the piped stream
    completes: it emits what the failed subscriptions emitted, followed by
    the values of the successful one, and subscribes the source [n + 1]
    times.  Any fuel above [n] is enough. *)
Theorem handleRetry_yields_success {T : Type} (source : Observable T) (n : nat)
  (retryAttempts retryDelay : option Z) (fuel : nat) (j : Journal) :
  failsThenSucceeds source n = true ->
  n = 0 \/ (Z.of_nat n < orDefault 9 retryAttempts)%Z ->
  n < fuel ->
  exists o,
    handleRetry retryAttempts retryDelay source fuel j = Some o
    /\ run o = {| emitted := emittedFrom source 0 n ++ emitted (source n);
                  ending := Complete |}%list
    /\ subscriptions o = S n.
Proof.
  intros Hsrc Hbudget Hfuel.
  apply andb_true_iff in Hsrc as [Hfail Hok].
  apply negb_true_iff in Hok.
  destruct (resubscribe_succeeds source (orDefault 9%Z retryAttempts)
              (orDefault 3000%Z retryDelay) n 0 fuel [] j) as [j' Hj'];
    [intros i Hi; now apply failsFirst_spec with (n := n) | exact Hok
    | exact Hbudget | exact Hfuel |].
  eexists. split; [exact Hj' |]. simpl.
  now rewrite emittedFrom_snoc.
Qed.

(** C1, at a source that fails once and then connects, with two attempts. *)
Lemma handleRetry_yields_success_flaky :
  failsThenSucceeds flaky 1 = true
  /\ (1 < 2)%Z
  /\ exists o,
       handleRetry (Some 2%Z) None flaky 2 [] = Some o
       /\ run o = {| emitted := ["connected"]; ending := Complete |}
       /\ subscriptions o = 2.
Proof.
  split; [reflexivity |]. split; [lia |].
  apply (handleRetry_yields_success flaky 1 (Some 2%Z) None 2 []);
    [reflexivity | right; simpl; lia | lia].
Defined.

(** C1 as stated fails: the source fails once and then connects, and
    [retryAttempts] is 1, which is not below the number of failures; the
    piped stream ends with the first failure after one subscription and never
    reaches the success. *)
Lemma handleRetry_budget_equal_to_failures :
  failsThenSucceeds flaky 1 = true
  /\ (1 >= Z.of_nat 1)%Z
  /\ handleRetry (Some 1%Z) None flaky 8 []
     = Some {| run := {| emitted := []; ending := Fail refused |};
               subscriptions := 1;
               journal := [retryLine 1 refused] |}.
Proof. split; [reflexivity |]. split; [simpl; lia | reflexivity]. Qed.

(** C2 (amended): when the first [n >= 1] subscriptions of the source fail and
    [retryAttempts] is below [n], the piped stream fails after
    [max 1 retryAttempts] subscriptions, with the error of the last of these
    subscriptions, unchanged. *)
Theorem handleRetry_gives_up {T : Type} (source : Observable T) (n : nat)
  (retryAttempts retryDelay : option Z) (fuel : nat) (j : Journal) :
  failsFirst source n = true ->
  1 <= n ->
  (orDefault 9 retryAttempts < Z.of_nat n)%Z ->
  attemptsAllowed retryAttempts <= fuel ->
  exists o e,
    handleRetry retryAttempts retryDelay source fuel j = Some o
    /\ ending (source (attemptsAllowed retryAttempts - 1)) = Fail e
    /\ ending (run o) = Fail e
    /\ subscriptions o = attemptsAllowed retryAttempts.
Proof.
  unfold attemptsAllowed. intros Hfail Hn Hbudget Hfuel.
  set (R := orDefault 9%Z retryAttempts) in *.
  set (a := Z.to_nat (Z.max 1 R)) in *.
  destruct (resubscribe_gives_up source R (orDefault 3000%Z retryDelay)
              (a - 1) 0 fuel [] j) as (e & j' & He & Hj').
  - intros i Hi. apply failsFirst_spec with (n := n); [exact Hfail | lia].
  - lia.
  - lia.
  - lia.
  - eexists. exists e. split; [exact Hj' |]. simpl.
    repeat split; [exact He | lia].
Qed.

(** C2, at a source whose first three subscriptions fail, with two attempts. *)
Lemma handleRetry_gives_up_failing :
  failsFirst failing 3 = true
  /\ (2 < Z.of_nat 3)%Z
  /\ exists o e,
       handleRetry (Some 2%Z) (Some 10%Z) failing 2 [] = Some o
       /\ ending (failing 1) = Fail e
       /\ ending (run o) = Fail e
       /\ subscriptions o = 2.
Proof.
  split; [reflexivity |]. split; [simpl; lia |].
  apply (handleRetry_gives_up failing 3 (Some 2%Z) (Some 10%Z) 2 []);
    [reflexivity | lia | simpl; lia | apply le_n].
Defined.

(** C2 as stated fails: the first three subscriptions of the source fail, each
    with an error of its own, and [retryAttempts] is 2; the piped stream
    fails with the second error, not with the first. *)
Lemma handleRetry_not_first_failure :
  failsFirst failing 3 = true
  /\ (2 < Z.of_nat 3)%Z
  /\ ending (failing 0) = Fail refused
  /\ option_map (fun o => ending (run o))
       (handleRetry (Some 2%Z) (Some 10%Z) failing 8 [])
     = Some (Fail timedOut)
  /\ timedOut <> refused.
Proof.
  split; [reflexivity |]. split; [simpl; lia |].
  split; [reflexivity |]. split; [reflexivity | discriminate].
Qed.

(** C3: with fuel for the subscriptions the budget allows, the piped stream
    ends.  Whenever it ends with an error, the budget is exhausted -- the
    source was subscribed at least [retryAttempts] times -- and the error is
    the one that ended the last subscription of the source, logged last with
    the attempt count and the error's stack.  And when every subscription the
    budget allows fails, the piped stream does end with an error, after that
    many subscriptions. *)
Theorem handleRetry_rethrows_last {T : Type} (source : Observable T)
  (retryAttempts retryDelay : option Z) (fuel : nat) (j : Journal) :
  attemptsAllowed retryAttempts <= fuel ->
  exists o,
    handleRetry retryAttempts retryDelay source fuel j = Some o
    /\ 1 <= subscriptions o
    /\ (forall e, ending (run o) = Fail e ->
          ending (source (subscriptions o - 1)) = Fail e
          /\ (orDefault 9 retryAttempts <= Z.of_nat (subscriptions o))%Z
          /\ exists j', journal o = (j' ++ [retryLine (subscriptions o) e])%list)
    /\ (failsFirst source (attemptsAllowed retryAttempts) = true ->
        subscriptions o = attemptsAllowed retryAttempts
        /\ exists e, ending (run o) = Fail e).
Proof.
  unfold attemptsAllowed. intros Hfuel.
  set (R := orDefault 9%Z retryAttempts) in *.
  set (a := Z.to_nat (Z.max 1 R)) in *.
  destruct (resubscribe_ends source R (orDefault 3000%Z retryDelay) fuel 0 [] j)
    as (o & Ho & Hk & Hlast); [simpl; lia |].
  exists o. split; [exact Ho |]. split; [lia |]. split; [exact Hlast |].
  intros Hfail.
  destruct (resubscribe_gives_up source R (orDefault 3000%Z retryDelay)
              (a - 1) 0 fuel [] j) as (e & j' & He & Hj');
    [intros i Hi; apply failsFirst_spec with (n := a); [exact Hfail | lia]
    | lia | lia | lia |].
  unfold handleRetry, retryWhen in Ho. fold R in Ho.
  change (seed (pipe (scan (countError R) 0%Z) (delay (orDefault 3000%Z retryDelay))))
    with (Z.of_nat 0, tt) in Ho.
  rewrite Hj' in Ho. injection Ho as <-. simpl.
  split; [lia | now exists e].
Qed.

(** C3, at a source whose first three subscriptions fail, with a budget of
    three attempts. *)
Lemma handleRetry_rethrows_last_failing :
  attemptsAllowed (Some 3%Z) <= 3
  /\ exists o,
       handleRetry (Some 3%Z) None failing 3 [] = Some o
       /\ 1 <= subscriptions o
       /\ (forall e, ending (run o) = Fail e ->
             ending (failing (subscriptions o - 1)) = Fail e
             /\ (3 <= Z.of_nat (subscriptions o))%Z
             /\ exists j', journal o = (j' ++ [retryLine (subscriptions o) e])%list)
       /\ (failsFirst failing (attemptsAllowed (Some 3%Z)) = true ->
           subscriptions o = attemptsAllowed (Some 3%Z)
           /\ exists e, ending (run o) = Fail e).
Proof.
  split; [apply le_n |].
  apply (handleRetry_rethrows_last failing (Some 3%Z) None 3 []). apply le_n.
Defined.

(** * Further properties of the naming helpers *)

(** ** Strings *)

Lemma list_ascii_of_string_append (a b : string) :
  list_ascii_of_string (a ++ b)
  = (list_ascii_of_string a ++ list_ascii_of_string b)%list.
Proof.
  induction a as [| c a IH]; simpl; [reflexivity | now rewrite IH].
Qed.

Lemma list_ascii_of_string_inj (a b : string) :
  list_ascii_of_string a = list_ascii_of_string b -> a = b.
Proof.
  intros H.
  rewrite <- (string_of_list_ascii_of_string a), H.
  apply string_of_list_ascii_of_string.
Qed.

Lemma append_assoc (a b c : string) : (a ++ b) ++ c = a ++ b ++ c.
Proof.
  induction a as [| x a IH]; simpl; [reflexivity | now rewrite IH].
Qed.

Lemma append_inv_head (a x y : string) : a ++ x = a ++ y -> x = y.
Proof.
  induction a as [| c a IH]; simpl; intros H; [exact H |].
  injection H as H. now apply IH.
Qed.

Lemma append_inv_tail (x y s : string) : x ++ s = y ++ s -> x = y.
Proof.
  intros H. apply list_ascii_of_string_inj.
  apply (f_equal list_ascii_of_string) in H.
  rewrite !list_ascii_of_string_append in H.
  now apply app_inv_tail in H.
Qed.

Lemma append_not_empty (s t : string) : t <> "" -> s ++ t <> "".
Proof.
  intros Ht. destruct s; simpl; [exact Ht | discriminate].
Qed.

(** No string ends both with ["Repository"] and with ["Connection"]. *)
Lemma suffixes_differ (x y : string) : x ++ "Repository" <> y ++ "Connection".
Proof.
  intros H. apply (f_equal list_ascii_of_string) in H.
  rewrite !list_ascii_of_string_append in H.
  change (list_ascii_of_string "Repository")
    with (list_ascii_of_string "Repositor" ++ ["y"%char])%list in H.
  change (list_ascii_of_string "Connection")
    with (list_ascii_of_string "Connectio" ++ ["n"%char])%list in H.
  rewrite !app_assoc in H.
  apply app_inj_tail in H as [_ H]. discriminate H.
Qed.

(** ** Tokens *)

Section TokenLaws.

Variable DEFAULT_CONNECTION_NAME : string.

(** The two helpers take the same decision on what counts as the default
    connection. *)
Lemma default_decision (connection : option Connection) :
  (getConnectionToken DEFAULT_CONNECTION_NAME connection = Sequelize
   /\ getConnectionPrefix DEFAULT_CONNECTION_NAME connection = "")
  \/ (exists n,
        getConnectionToken DEFAULT_CONNECTION_NAME connection
        = StringToken (n ++ "Connection")
        /\ getConnectionPrefix DEFAULT_CONNECTION_NAME connection = n ++ "_").
Proof.
  destruct connection as [[s | o] |].
  - rewrite getConnectionToken_string, getConnectionPrefix_string.
    rewrite (String.eqb_sym DEFAULT_CONNECTION_NAME s).
    destruct (s =? DEFAULT_CONNECTION_NAME); [left | right; exists s]; now split.
  - rewrite getConnectionToken_options, getConnectionPrefix_options.
    destruct (strictEq (name o) DEFAULT_CONNECTION_NAME || negb (truthy (name o)));
      [left | right; exists (orDefault "undefined" (name o))]; now split.
  - left.
    change (getConnectionToken DEFAULT_CONNECTION_NAME None)
      with (getConnectionToken DEFAULT_CONNECTION_NAME
              (Some (ConnectionName DEFAULT_CONNECTION_NAME))).
    change (getConnectionPrefix DEFAULT_CONNECTION_NAME None)
      with (getConnectionPrefix DEFAULT_CONNECTION_NAME
              (Some (ConnectionName DEFAULT_CONNECTION_NAME))).
    rewrite getConnectionToken_string, getConnectionPrefix_string.
    now rewrite String.eqb_refl.
Qed.

(** What [getConnectionName] returns for an options object. *)
Lemma getConnectionName_present (o : SequelizeModuleOptions) :
  getConnectionName DEFAULT_CONNECTION_NAME (present o)
  = if truthy (name o) then orDefault "undefined" (name o)
    else DEFAULT_CONNECTION_NAME.
Proof. reflexivity. Qed.

(** The guard of lines 46 and 68, by cases on the options object: either it
    holds and the resolved name is the default, or it fails and the resolved
    name is the name of the object. *)
Lemma guard_cases (o : SequelizeModuleOptions) :
  (strictEq (name o) DEFAULT_CONNECTION_NAME || negb (truthy (name o)) = true
   /\ getConnectionName DEFAULT_CONNECTION_NAME (present o) = DEFAULT_CONNECTION_NAME)
  \/ (strictEq (name o) DEFAULT_CONNECTION_NAME || negb (truthy (name o)) = false
      /\ getConnectionName DEFAULT_CONNECTION_NAME (present o)
         = orDefault "undefined" (name o)
      /\ orDefault "undefined" (name o) <> DEFAULT_CONNECTION_NAME).
Proof.
  rewrite getConnectionName_present.
  destruct o as [[n |]]; unfold name, strictEq, truthy, orDefault.
  - destruct (String.eqb_spec n DEFAULT_CONNECTION_NAME) as [Hd | Hd];
      destruct (String.eqb_spec n "") as [He | He]; simpl.
    + left. now split.
    + left. now split.
    + left. now split.
    + right. now repeat split.
  - left. now split.
Qed.

(** X1: the connection token is the [Sequelize] class exactly when the
    connection prefix is empty. *)
Theorem default_token_iff_empty_prefix (connection : option Connection) :
  getConnectionToken DEFAULT_CONNECTION_NAME connection = Sequelize
  <-> getConnectionPrefix DEFAULT_CONNECTION_NAME connection = "".
Proof.
  destruct (default_decision connection) as [[Ht Hp] | (n & Ht & Hp)];
    rewrite Ht, Hp.
  - now split.
  - split; [discriminate |].
    intros H. exfalso. revert H. apply append_not_empty. discriminate.
Qed.

(** X2: an options object can be replaced by the name that
    [getConnectionName] resolves it to: the connection token, the prefix and
    every model token stay the same. *)
Theorem options_as_resolved_name (o : SequelizeModuleOptions)
  (entity : Nullable Entity) :
  let resolved :=
    ConnectionName (getConnectionName DEFAULT_CONNECTION_NAME (present o)) in
  getConnectionToken DEFAULT_CONNECTION_NAME (Some (ConnectionOptions o))
  = getConnectionToken DEFAULT_CONNECTION_NAME (Some resolved)
  /\ getConnectionPrefix DEFAULT_CONNECTION_NAME (Some (ConnectionOptions o))
     = getConnectionPrefix DEFAULT_CONNECTION_NAME (Some resolved)
  /\ getModelToken DEFAULT_CONNECTION_NAME entity (Some (ConnectionOptions o))
     = getModelToken DEFAULT_CONNECTION_NAME entity (Some resolved).
Proof.
  cbv zeta.
  assert (Hp : getConnectionPrefix DEFAULT_CONNECTION_NAME (Some (ConnectionOptions o))
               = getConnectionPrefix DEFAULT_CONNECTION_NAME
                   (Some (ConnectionName
                            (getConnectionName DEFAULT_CONNECTION_NAME (present o))))).
  { rewrite getConnectionPrefix_options, getConnectionPrefix_string.
    destruct (guard_cases o) as [[-> ->] | (-> & -> & Hd)].
    - now rewrite String.eqb_refl.
    - apply String.eqb_neq in Hd. now rewrite Hd. }
  split; [| split; [exact Hp |]].
  - rewrite getConnectionToken_options, getConnectionToken_string.
    destruct (guard_cases o) as [[-> ->] | (-> & -> & Hd)].
    + now rewrite String.eqb_refl.
    + apply String.eqb_neq in Hd. rewrite String.eqb_sym. now rewrite Hd.
  - destruct entity as [| | e]; try reflexivity.
    unfold getModelToken. cbn [orDefault]. now rewrite Hp.
Qed.

(** X3: resolving the name of a connection twice changes nothing. *)
Theorem getConnectionName_idempotent (options : Nullable SequelizeModuleOptions) :
  getConnectionName DEFAULT_CONNECTION_NAME
    (present {| name := Some (getConnectionName DEFAULT_CONNECTION_NAME options) |})
  = getConnectionName DEFAULT_CONNECTION_NAME options.
Proof.
  rewrite getConnectionName_present. unfold name at 1 2, truthy at 1, orDefault at 1.
  destruct (String.eqb_spec (getConnectionName DEFAULT_CONNECTION_NAME options) "")
    as [He | Hne]; simpl; [| reflexivity].
  destruct options as [| | o]; try reflexivity.
  rewrite getConnectionName_present in *.
  destruct o as [[n |]]; unfold name, truthy, orDefault in *; try reflexivity.
  destruct (String.eqb_spec n ""); simpl in *; congruence.
Qed.

(** X4: when the default connection name is not empty, the name that
    [getConnectionName] returns is never empty. *)
Theorem getConnectionName_not_empty (options : Nullable SequelizeModuleOptions) :
  DEFAULT_CONNECTION_NAME <> "" ->
  getConnectionName DEFAULT_CONNECTION_NAME options <> "".
Proof.
  intros Hd. destruct options as [| | [[n |]]]; try exact Hd.
  rewrite getConnectionName_present. unfold name, truthy, orDefault.
  destruct (String.eqb_spec n ""); simpl; assumption.
Qed.

(** The string tokens of connections all end with ["Connection"]. *)
Lemma string_token_shape (connection : option Connection) (t : string) :
  getConnectionToken DEFAULT_CONNECTION_NAME connection = StringToken t ->
  exists n, t = n ++ "Connection".
Proof.
  destruct (default_decision connection) as [[Ht _] | (n & Ht & _)];
    rewrite Ht; [discriminate |].
  intros [= <-]. now exists n.
Qed.

(** X5: on one connection, two models have the same token exactly when they
    have the same name. *)
Theorem getModelToken_same_name (e1 e2 : Entity) (connection : option Connection) :
  getModelToken DEFAULT_CONNECTION_NAME (present e1) connection
  = getModelToken DEFAULT_CONNECTION_NAME (present e2) connection
  <-> entityName e1 = entityName e2.
Proof.
  unfold getModelToken. cbv zeta. split.
  - intros [= H]. apply append_inv_head in H.
    now apply append_inv_tail in H.
  - now intros ->.
Qed.

(** X6: two connections that carry non-default names have the same token
    exactly when they carry the same name. *)
Theorem getConnectionToken_same_name (c1 c2 : Connection) (n1 n2 : string) :
  nameOf c1 = Some n1 -> n1 <> DEFAULT_CONNECTION_NAME -> c1 <> unnamed ->
  nameOf c2 = Some n2 -> n2 <> DEFAULT_CONNECTION_NAME -> c2 <> unnamed ->
  getConnectionToken DEFAULT_CONNECTION_NAME (Some c1)
  = getConnectionToken DEFAULT_CONNECTION_NAME (Some c2)
  <-> n1 = n2.
Proof.
  intros H1 Hd1 Hu1 H2 Hd2 Hu2.
  assert (token_of_name :
            forall c n, nameOf c = Some n -> n <> DEFAULT_CONNECTION_NAME ->
                        c <> unnamed ->
                        getConnectionToken DEFAULT_CONNECTION_NAME (Some c)
                        = StringToken (n ++ "Connection")).
  { intros c n Hn Hd Hu.
    destruct (named_connection_cases c n Hn Hu) as [-> | [-> He]].
    - rewrite getConnectionToken_string, String.eqb_sym.
      apply String.eqb_neq in Hd. now rewrite Hd.
    - rewrite getConnectionToken_options.
      now rewrite (named_options_guard DEFAULT_CONNECTION_NAME n Hd He). }
  rewrite (token_of_name c1 n1 H1 Hd1 Hu1), (token_of_name c2 n2 H2 Hd2 Hu2).
  split.
  - intros [= H]. now apply append_inv_tail in H.
  - now intros ->.
Qed.

(** X7: model tokens are not unique across connections: a model named
    [c ++ "_" ++ e] on the default connection has the token of the model named
    [e] on the non-default connection [c]. *)
Theorem getModelToken_collision (c e : string) :
  c <> DEFAULT_CONNECTION_NAME ->
  getModelToken DEFAULT_CONNECTION_NAME
    (present {| entityName := c ++ "_" ++ e |}) None
  = getModelToken DEFAULT_CONNECTION_NAME
      (present {| entityName := e |}) (Some (ConnectionName c)).
Proof.
  intros Hd. unfold getModelToken. cbn [orDefault entityName].
  rewrite !getConnectionPrefix_string, String.eqb_refl.
  apply String.eqb_neq in Hd. rewrite Hd.
  now rewrite !append_assoc.
Qed.

(** X8: a model token is never the string token of a connection. *)
Theorem model_token_not_connection_token (entity : Entity)
  (connection connection' : option Connection) (s t : string) :
  getModelToken DEFAULT_CONNECTION_NAME (present entity) connection = Returned s ->
  getConnectionToken DEFAULT_CONNECTION_NAME connection' = StringToken t ->
  s <> t.
Proof.
  unfold getModelToken. cbv zeta. intros [= <-] Ht.
  destruct (string_token_shape connection' t Ht) as [n ->].
  rewrite <- append_assoc. apply suffixes_differ.
Qed.

(** X9: on every connection whose token is the [Sequelize] class, the token of
    a model is its name followed by ["Repository"], without a prefix. *)
Theorem getModelToken_default_connection (entity : Entity)
  (connection : option Connection) :
  getConnectionToken DEFAULT_CONNECTION_NAME connection = Sequelize ->
  getModelToken DEFAULT_CONNECTION_NAME (present entity) connection
  = Returned (entityName entity ++ "Repository").
Proof.
  intros Ht. unfold getModelToken. cbv zeta.
  rewrite getConnectionPrefix_orDefault.
  destruct (default_decision connection) as [[_ Hp] | (n & Ht' & _)].
  - now rewrite Hp.
  - rewrite Ht in Ht'. discriminate Ht'.
Qed.

End TokenLaws.

(** X4, with the documented default name. *)
Lemma getConnectionName_not_empty_default :
  "default" <> ""
  /\ getConnectionName "default" (present {| name := Some "" |}) <> "".
Proof.
  split; [discriminate |].
  apply (getConnectionName_not_empty "default"). discriminate.
Defined.

(** X6, at a string and an options object that carry the same name. *)
Lemma getConnectionToken_same_name_reporting :
  getConnectionToken "default" (Some (ConnectionName "reporting"))
  = getConnectionToken "default"
      (Some (ConnectionOptions {| name := Some "reporting" |}))
  <-> "reporting" = "reporting".
Proof.
  apply (getConnectionToken_same_name "default" (ConnectionName "reporting")
           (ConnectionOptions {| name := Some "reporting" |}));
    first [reflexivity | discriminate | unfold unnamed; discriminate].
Defined.

(** X7, at the connection ["audit"] and the model ["User"]. *)
Lemma getModelToken_collision_audit :
  "audit" <> "default"
  /\ getModelToken "default" (present {| entityName := "audit_User" |}) None
     = getModelToken "default" (present {| entityName := "User" |})
         (Some (ConnectionName "audit")).
Proof.
  split; [discriminate |].
  apply (getModelToken_collision "default" "audit" "User"). discriminate.
Defined.

(** X8, at the model ["User"] and the connection ["User"]. *)
Lemma model_token_not_connection_token_user :
  getModelToken "default" (present {| entityName := "User" |}) None
  = Returned "UserRepository"
  /\ getConnectionToken "default" (Some (ConnectionName "User"))
     = StringToken "UserConnection"
  /\ "UserRepository" <> "UserConnection".
Proof.
  split; [reflexivity |]. split; [reflexivity |].
  apply (model_token_not_connection_token "default" {| entityName := "User" |}
           None (Some (ConnectionName "User")));
    reflexivity.
Defined.

(** X9, at an options object without a name. *)
Lemma getModelToken_default_connection_unnamed :
  getModelToken "default" (present {| entityName := "User" |})
    (Some (ConnectionOptions {| name := None |}))
  = Returned "UserRepository".
Proof.
  apply (getModelToken_default_connection "default" {| entityName := "User" |}
           (Some (ConnectionOptions {| name := None |}))).
  reflexivity.
Defined.

(** * Further properties of the retry operator *)

Lemma waited_app (j j' : Journal) :
  waited (j ++ j')%list = (waited j + waited j')%Z.
Proof.
  induction j as [| [c m t | due] j IH]; simpl; lia.
Qed.

Lemma waited_retryLine (n : nat) (e : JsError) : waited [retryLine n e] = 0%Z.
Proof. reflexivity. Qed.

Lemma dueTime_in_range (due : Z) :
  (0 <= due < 2147483648)%Z -> dueTime due = due.
Proof.
  intros [Hlow Hhigh]. unfold dueTime.
  destruct (Z.ltb_spec due 0); [lia |].
  destruct (Z.ltb_spec due 2147483648); [reflexivity | lia].
Qed.

Lemma waited_timer (due : Z) : waited [Timer due] = due.
Proof. unfold waited. simpl. lia. Qed.

Lemma retryJournal_last {T : Type} (source : Observable T) (retryDelay : Z)
  (k : nat) :
  retryJournal source retryDelay k (S k)
  = match ending (source k) with
    | Fail e => [retryLine (S k) e]
    | Complete => []
    end.
Proof.
  unfold retryJournal. replace (S k - k) with 1 by lia. simpl.
  rewrite Nat.ltb_irrefl.
  destruct (ending (source k)); reflexivity.
Qed.

Lemma retryJournal_cons {T : Type} (source : Observable T) (retryDelay : Z)
  (k n : nat) (e : JsError) :
  S k < n -> ending (source k) = Fail e ->
  retryJournal source retryDelay k n
  = (retryLine (S k) e :: Timer retryDelay :: retryJournal source retryDelay (S k) n)%list.
Proof.
  intros Hk He. unfold retryJournal.
  replace (n - k) with (S (n - S k)) by lia. simpl. rewrite He.
  apply Nat.ltb_lt in Hk. now rewrite Hk.
Qed.

Section RetryLaws.

Context {T : Type}.
Variable source : Observable T.
Variables retryAttempts retryDelay : Z.

Notation "'notifier'" :=
  (pipe (scan (countError retryAttempts) 0%Z) (delay retryDelay)).

(** What an outcome of the loop looks like, whatever the source: the source
    was subscribed again only after failures that left budget; the run ends
    as the last subscription ended and holds every value emitted on the way;
    the journal grew by the lines and waits of these subscriptions. *)
Lemma resubscribe_outcome (fuel : nat) :
  forall (k : nat) (seen : list T) (j : Journal) (o : Outcome T),
    resubscribe notifier source fuel (Z.of_nat k, tt) k seen j = Some o ->
    k < subscriptions o
    /\ (forall i, k <= i -> S i < subscriptions o ->
          failed (source i) = true /\ (Z.of_nat (S i) < retryAttempts)%Z)
    /\ ending (run o) = ending (source (subscriptions o - 1))
    /\ emitted (run o)
       = (seen ++ emittedFrom source k (subscriptions o - k))%list
    /\ journal o
       = (j ++ retryJournal source (dueTime retryDelay) k (subscriptions o))%list
    /\ (waited (journal o)
        = waited j + (Z.of_nat (subscriptions o) - Z.of_nat (S k)) * dueTime retryDelay)%Z.
Proof.
  induction fuel as [| fuel IH]; intros k seen j o H; [discriminate H |].
  rewrite resubscribe_step in H.
  destruct (ending (source k)) as [| e] eqn:He.
  - injection H as <-. cbn [subscriptions run journal emitted ending].
    replace (S k - 1) with k by lia. replace (S k - k) with 1 by lia.
    rewrite retryJournal_last, He, emittedFrom_cons.
    unfold emittedFrom at 1. simpl flat_map. rewrite !app_nil_r.
    repeat split; lia.
  - destruct (Z.geb_spec (Z.of_nat (S k)) retryAttempts) as [Hge | Hlt].
    + injection H as <-. cbn [subscriptions run journal emitted ending].
      replace (S k - 1) with k by lia. replace (S k - k) with 1 by lia.
      rewrite retryJournal_last, He, emittedFrom_cons, waited_app.
      unfold emittedFrom at 1. simpl flat_map. rewrite !app_nil_r.
      repeat split; try lia.
      rewrite waited_retryLine. lia.
    + apply IH in H as (Hk & Hbefore & Hend & Hvalues & Hjournal & Hwait).
      split; [lia |]. split; [| split; [exact Hend |]].
      * intros i Hi Hlast. destruct (Nat.eq_dec i k) as [-> | Hne].
        -- split; [| exact Hlt]. unfold failed. now rewrite He.
        -- apply Hbefore; lia.
      * split; [| split].
        -- rewrite Hvalues.
           replace (subscriptions o - k) with (S (subscriptions o - S k)) by lia.
           now rewrite emittedFrom_cons, app_assoc.
        -- rewrite Hjournal, (retryJournal_cons source (dueTime retryDelay) k _ e Hk He).
           now rewrite <- !app_assoc.
        -- rewrite Hwait, !waited_app, waited_retryLine, waited_timer.
           rewrite (Nat2Z.inj_succ (S k)). ring.
Qed.

End RetryLaws.

(** Everything the loop lemmas say about one subscription of the piped
    stream, with fuel for the subscriptions that the budget allows. *)
Lemma handleRetry_outcome {T : Type} (source : Observable T)
  (retryAttempts retryDelay : option Z) (fuel : nat) (j : Journal) :
  attemptsAllowed retryAttempts <= fuel ->
  exists o,
    handleRetry retryAttempts retryDelay source fuel j = Some o
    /\ 1 <= subscriptions o <= attemptsAllowed retryAttempts
    /\ (forall i, S i < subscriptions o -> failed (source i) = true)
    /\ ending (run o) = ending (source (subscriptions o - 1))
    /\ emitted (run o) = emittedFrom source 0 (subscriptions o)
    /\ journal o
       = (j ++ retryJournal source (dueTime (orDefault 3000%Z retryDelay)) 0
                 (subscriptions o))%list
    /\ (waited (journal o)
        = waited j
          + (Z.of_nat (subscriptions o) - 1) * dueTime (orDefault 3000 retryDelay))%Z
    /\ (failed (source (subscriptions o - 1)) = true ->
        (orDefault 9 retryAttempts <= Z.of_nat (subscriptions o))%Z).
Proof.
  unfold attemptsAllowed. intros Hfuel.
  set (R := orDefault 9%Z retryAttempts) in *.
  set (d := orDefault 3000%Z retryDelay) in *.
  destruct (resubscribe_ends source R d fuel 0 [] j) as (o & Ho & _ & Hlast);
    [simpl; lia |].
  destruct (resubscribe_outcome source R d fuel 0 [] j o Ho)
    as (Hk & Hbefore & Hend & Hvalues & Hjournal & Hwait).
  exists o. split; [exact Ho |].
  rewrite Nat.sub_0_r in Hvalues.
  repeat split; try assumption; try lia.
  - destruct (le_lt_dec (subscriptions o) 1) as [| Hmore]; [lia |].
    destruct (Hbefore (subscriptions o - 2)) as [_ Hlt]; lia.
  - intros i Hi. now apply Hbefore; [lia |].
  - intros Hfail. apply failed_true in Hfail as [e He].
    rewrite <- Hend in He. now apply Hlast in He.
Qed.

(** X10: the source is subscribed at least once and at most
    [max 1 retryAttempts] times. *)
Theorem handleRetry_bounded_attempts {T : Type} (source : Observable T)
  (retryAttempts retryDelay : option Z) (fuel : nat) (j : Journal) :
  attemptsAllowed retryAttempts <= fuel ->
  exists o,
    handleRetry retryAttempts retryDelay source fuel j = Some o
    /\ 1 <= subscriptions o <= attemptsAllowed retryAttempts.
Proof.
  intros Hfuel.
  destruct (handleRetry_outcome source retryAttempts retryDelay fuel j Hfuel)
    as (o & Ho & Hbound & _).
  now exists o.
Qed.

(** X11: the piped stream forwards every value of every subscription it
    makes, failed ones included, and ends the way its last subscription of
    the source ended; every subscription before the last one failed. *)
Theorem handleRetry_forwards_everything {T : Type} (source : Observable T)
  (retryAttempts retryDelay : option Z) (fuel : nat) (j : Journal) :
  attemptsAllowed retryAttempts <= fuel ->
  exists o,
    handleRetry retryAttempts retryDelay source fuel j = Some o
    /\ emitted (run o) = emittedFrom source 0 (subscriptions o)
    /\ ending (run o) = ending (source (subscriptions o - 1))
    /\ forall i, S i < subscriptions o -> failed (source i) = true.
Proof.
  intros Hfuel.
  destruct (handleRetry_outcome source retryAttempts retryDelay fuel j Hfuel)
    as (o & Ho & _ & Hbefore & Hend & Hvalues & _).
  exists o. now repeat split.
Qed.

(** X12: for a delay from 0 up to 2^31 - 1, the journal keeps what it held
    and gains, for every failed subscription in order, the line "Retrying (i)"
    with the number of the subscription and the stack of its error, followed
    by a wait of [retryDelay] unless the stream gives up on that failure. *)
Theorem handleRetry_journal {T : Type} (source : Observable T)
  (retryAttempts retryDelay : option Z) (fuel : nat) (j : Journal) :
  (0 <= orDefault 3000 retryDelay < 2147483648)%Z ->
  attemptsAllowed retryAttempts <= fuel ->
  exists o,
    handleRetry retryAttempts retryDelay source fuel j = Some o
    /\ journal o
       = (j ++ retryJournal source (orDefault 3000%Z retryDelay) 0 (subscriptions o))%list.
Proof.
  intros Hdue Hfuel.
  destruct (handleRetry_outcome source retryAttempts retryDelay fuel j Hfuel)
    as (o & Ho & _ & _ & _ & _ & Hjournal & _).
  rewrite (dueTime_in_range _ Hdue) in Hjournal.
  now exists o.
Qed.

(** X13: for a delay from 0 up to 2^31 - 1, the time the piped stream spends
    waiting is [retryDelay] for every subscription after the first. *)
Theorem handleRetry_total_wait {T : Type} (source : Observable T)
  (retryAttempts retryDelay : option Z) (fuel : nat) (j : Journal) :
  (0 <= orDefault 3000 retryDelay < 2147483648)%Z ->
  attemptsAllowed retryAttempts <= fuel ->
  exists o,
    handleRetry retryAttempts retryDelay source fuel j = Some o
    /\ (waited (journal o)
        = waited j + (Z.of_nat (subscriptions o) - 1) * orDefault 3000 retryDelay)%Z.
Proof.
  intros Hdue Hfuel.
  destruct (handleRetry_outcome source retryAttempts retryDelay fuel j Hfuel)
    as (o & Ho & _ & _ & _ & _ & _ & Hwait & _).
  rewrite (dueTime_in_range _ Hdue) in Hwait.
  now exists o.
Qed.

(** X14: with [retryAttempts] at most 1 nothing is retried: the piped stream
    subscribes the source once, delivers what that subscription delivers, and
    never waits. *)
Theorem handleRetry_single_attempt {T : Type} (source : Observable T)
  (retryAttempts : Z) (retryDelay : option Z) (fuel : nat) (j : Journal) :
  (retryAttempts <= 1)%Z ->
  1 <= fuel ->
  exists o,
    handleRetry (Some retryAttempts) retryDelay source fuel j = Some o
    /\ subscriptions o = 1
    /\ emitted (run o) = emitted (source 0)
    /\ ending (run o) = ending (source 0)
    /\ waited (journal o) = waited j.
Proof.
  intros HR Hfuel.
  destruct (handleRetry_outcome source (Some retryAttempts) retryDelay fuel j)
    as (o & Ho & Hbound & _ & Hend & Hvalues & _ & Hwait & _).
  { unfold attemptsAllowed, orDefault. lia. }
  assert (Hone : subscriptions o = 1).
  { unfold attemptsAllowed, orDefault in Hbound. lia. }
  exists o. rewrite Hone in *. split; [exact Ho |].
  repeat split; try assumption.
  - rewrite Hvalues. unfold emittedFrom. simpl. apply app_nil_r.
  - rewrite Hwait. simpl. lia.
Qed.

(** X15: the piped stream completes exactly when one of the subscriptions
    that the budget allows succeeds, all the earlier ones having failed. *)
Theorem handleRetry_completes_iff {T : Type} (source : Observable T)
  (retryAttempts retryDelay : option Z) (fuel : nat) (j : Journal) :
  attemptsAllowed retryAttempts <= fuel ->
  exists o,
    handleRetry retryAttempts retryDelay source fuel j = Some o
    /\ (ending (run o) = Complete
        <-> exists n, n < attemptsAllowed retryAttempts
                      /\ failsThenSucceeds source n = true).
Proof.
  intros Hfuel.
  destruct (handleRetry_outcome source retryAttempts retryDelay fuel j Hfuel)
    as (o & Ho & Hbound & Hbefore & Hend & _ & _ & _ & Hreach).
  exists o. split; [exact Ho |].
  unfold failsThenSucceeds. split.
  - intros Hc. exists (subscriptions o - 1). split; [lia |].
    apply andb_true_iff. split.
    + apply failsFirst_spec. intros i Hi. apply Hbefore. lia.
    + unfold failed. rewrite <- Hend, Hc. reflexivity.
  - intros (n & Hn & Hsrc).
    apply andb_true_iff in Hsrc as [Hfail Hok].
    apply negb_true_iff in Hok.
    assert (Hlast : subscriptions o - 1 = n).
    { destruct (lt_eq_lt_dec (subscriptions o - 1) n) as [[Hlt | Heq] | Hgt].
      - assert (Hf : failed (source (subscriptions o - 1)) = true)
          by (apply failsFirst_spec with (n := n); assumption).
        apply Hreach in Hf. unfold attemptsAllowed in *. lia.
      - exact Heq.
      - rewrite Hbefore in Hok by lia. discriminate Hok. }
    rewrite Hend, Hlast. now apply failed_false.
Qed.

(** X10, at a source whose first three subscriptions fail, with two attempts. *)
Lemma handleRetry_bounded_attempts_failing :
  attemptsAllowed (Some 2%Z) <= 2
  /\ exists o,
       handleRetry (Some 2%Z) None failing 2 [] = Some o
       /\ 1 <= subscriptions o <= attemptsAllowed (Some 2%Z).
Proof.
  split; [apply le_n |].
  apply (handleRetry_bounded_attempts failing (Some 2%Z) None 2 []). apply le_n.
Defined.

(** X11, at a source that fails once and then connects, with the default
    budget. *)
Lemma handleRetry_forwards_everything_flaky :
  attemptsAllowed None <= 9
  /\ exists o,
       handleRetry None None flaky 9 [] = Some o
       /\ emitted (run o) = emittedFrom flaky 0 (subscriptions o)
       /\ ending (run o) = ending (flaky (subscriptions o - 1))
       /\ forall i, S i < subscriptions o -> failed (flaky i) = true.
Proof.
  split; [apply le_n |].
  apply (handleRetry_forwards_everything flaky None None 9 []). apply le_n.
Defined.

(** X12, at a source whose first three subscriptions fail, with three
    attempts and a delay of 10. *)
Lemma handleRetry_journal_failing :
  (0 <= 10 < 2147483648)%Z
  /\ attemptsAllowed (Some 3%Z) <= 3
  /\ exists o,
       handleRetry (Some 3%Z) (Some 10%Z) failing 3 [] = Some o
       /\ journal o = ([] ++ retryJournal failing 10 0 (subscriptions o))%list.
Proof.
  split; [lia |]. split; [apply le_n |].
  apply (handleRetry_journal failing (Some 3%Z) (Some 10%Z) 3 []);
    [simpl; lia | apply le_n].
Defined.

(** X13, at a source whose first three subscriptions fail, with the default
    budget and delay. *)
Lemma handleRetry_total_wait_failing :
  (0 <= 3000 < 2147483648)%Z
  /\ attemptsAllowed None <= 9
  /\ exists o,
       handleRetry None None failing 9 [] = Some o
       /\ (waited (journal o)
           = waited [] + (Z.of_nat (subscriptions o) - 1) * 3000)%Z.
Proof.
  split; [lia |]. split; [apply le_n |].
  apply (handleRetry_total_wait failing None None 9 []);
    [simpl; lia | apply le_n].
Defined.

(** X14, at a source that fails once and then connects, with no attempt
    allowed. *)
Lemma handleRetry_single_attempt_flaky :
  (0 <= 1)%Z
  /\ exists o,
       handleRetry (Some 0%Z) None flaky 1 [] = Some o
       /\ subscriptions o = 1
       /\ emitted (run o) = emitted (flaky 0)
       /\ ending (run o) = ending (flaky 0)
       /\ waited (journal o) = waited [].
Proof.
  split; [lia |].
  apply (handleRetry_single_attempt flaky 0%Z None 1 []); [lia | apply le_n].
Defined.

(** X15, at a source that fails once and then connects, with two attempts. *)
Lemma handleRetry_completes_iff_flaky :
  attemptsAllowed (Some 2%Z) <= 2
  /\ exists o,
       handleRetry (Some 2%Z) None flaky 2 [] = Some o
       /\ (ending (run o) = Complete
           <-> exists n, n < attemptsAllowed (Some 2%Z)
                         /\ failsThenSucceeds flaky n = true).
Proof.
  split; [apply le_n |].
  apply (handleRetry_completes_iff flaky (Some 2%Z) None 2 []). apply le_n.
Defined.
